(** * IEEE_FPU: the floating-point control extension of float-formats

    A shallow embedding of [ext/ieee_fpu_control.c].  The extension exposes
    two independent ways of reading and changing the rounding mode (and the
    computation precision) of the floating-point unit to Ruby:

    - the [<fenv.h>] functions [fegetround] / [fesetround] (compiled when
      [HAVE_FENV_H]);
    - the control word of [<fpu_control.h>], read with [_FPU_GETCW] and
      written with [_FPU_SETCW] (compiled when [HAVE_FPU_CONTROL_H]).

    Both headers belong to the C library, not to the extension: they are
    taken here as interfaces ([fenv_h], [fpu_control_h]) and the functions of
    the extension are embedded over them.  The bodies of the [mIEEE_FPU_*]
    functions follow the C text statement by statement, in a small state and
    exception monad ([NUM2UINT] may raise a Ruby [RangeError]). *)

From Stdlib Require Import ZArith Lia List Bool String.
Import ListNotations.
Local Open Scope Z_scope.

(** ** C integer types

    [int] and [unsigned int] are taken 32 bits wide.  Values are integers of
    [Z]; every conversion the C text performs is written out. *)

Definition UINT_MAX : Z := 2 ^ 32 - 1.
Definition INT_MAX : Z := 2 ^ 31 - 1.
Definition INT_MIN : Z := - 2 ^ 31.

Definition is_uint (x : Z) : Prop := 0 <= x <= UINT_MAX.

(** Conversion to [unsigned int]: reduction modulo [2^32]. *)
Definition to_uint (x : Z) : Z := x mod 2 ^ 32.

(** Conversion to [int] (two's complement wrap-around). *)
Definition to_int (x : Z) : Z :=
  let u := x mod 2 ^ 32 in
  if u <? 2 ^ 31 then u else u - 2 ^ 32.

(** ** Bit fields of a word

    [within m k]: every bit set in [m] is set in the mask [k]. *)

Definition within (m k : Z) : Prop := Z.land m (Z.lnot k) = 0.

(** The read-modify-write both set functions perform on a word [c]:
    clear the bits of [k], then or [m] in. *)
Definition field_update (c k m : Z) : Z := Z.lor (Z.land c (Z.lnot k)) m.

(** ** Ruby values and exceptions

    The functions receive and return Ruby [Integer]s; a conversion of
    [<ruby.h>] may raise. *)

Definition VALUE : Type := Z.

Inductive exn : Type :=
| RangeError.

Inductive outcome (A : Type) : Type :=
| Returned (a : A)
| Raised (e : exn).
Arguments Returned {A} a.
Arguments Raised {A} e.

(** A computation over the machine state [S]: it returns or raises, and
    leaves a state behind in both cases. *)
Definition M (S A : Type) : Type := S -> outcome A * S.

Definition ret {S A : Type} (a : A) : M S A := fun s => (Returned a, s).

Definition raise {S A : Type} (e : exn) : M S A := fun s => (Raised e, s).

Definition bind {S A B : Type} (c : M S A) (k : A -> M S B) : M S B :=
  fun s =>
    match c s with
    | (Returned a, s') => k a s'
    | (Raised e, s') => (Raised e, s')
    end.

Notation "x <- c ;; k" := (bind c (fun x => k))
  (at level 61, c at next level, right associativity).
Notation "c ;;; k" := (bind c (fun _ => k))
  (at level 61, right associativity).

(** The value a computation returns, when it returns. *)
Definition result {S A : Type} (r : outcome A * S) : option A :=
  match fst r with
  | Returned a => Some a
  | Raised _ => None
  end.

(** The state a computation leaves. *)
Definition state_after {S A : Type} (r : outcome A * S) : S := snd r.

(** Modelled from the spec: the macros [NUM2UINT] and [UINT2NUM] belong to
    [<ruby.h>], which the extension includes and does not define.  Modes
    cross the interface as unsigned integers: [NUM2UINT] yields the
    [unsigned int] of an [Integer] (as Ruby does it: an argument down to
    [INT_MIN] wraps, one outside [INT_MIN .. UINT_MAX] raises [RangeError]);
    [UINT2NUM] converts its argument to [unsigned int] and yields the
    [Integer] of that value. *)
Definition NUM2UINT {S : Type} (v : VALUE) : M S Z :=
  if (INT_MIN <=? v) && (v <=? UINT_MAX) then ret (to_uint v)
  else raise RangeError.

Definition UINT2NUM (x : Z) : VALUE := to_uint x.

(** ** [<fenv.h>]: the floating-point environment of the C library

    [fegetround] and [fesetround] are functions of the C library; each is a
    transition of the environment that yields an [int].  The four macros
    name the rounding directions. *)

Class fenv_h : Type := {
  fenv_t : Type;
  fegetround : fenv_t -> Z * fenv_t;
  fesetround : Z -> fenv_t -> Z * fenv_t;
  FE_DOWNWARD : Z;
  FE_TONEAREST : Z;
  FE_TOWARDZERO : Z;
  FE_UPWARD : Z
}.

(** A call of a C library function, as a computation. *)
Definition call {S A : Type} (f : S -> A * S) : M S A :=
  fun s => let (a, s') := f s in (Returned a, s').

Section FEnv.
Context {libc : fenv_h}.

(** The rounding modes [Init_ieee_fpu_control] exports as constants. *)
Definition rounding_macros : list Z :=
  [FE_DOWNWARD; FE_TONEAREST; FE_TOWARDZERO; FE_UPWARD].

Definition mIEEE_FPU_fegetround : M fenv_t VALUE :=
  r <- call fegetround ;;
  ret (UINT2NUM r).

Definition mIEEE_FPU_fesetround (mode : VALUE) : M fenv_t VALUE :=
  m <- NUM2UINT mode ;;
  call (fesetround (to_int m)) ;;;
  r <- call fegetround ;;
  ret (UINT2NUM r).

(** What the C standard says of the two library functions (C99 7.6,
    7.6.3): [fegetround] is a query; the rounding macros are nonnegative
    [int]s; [fesetround] establishes the direction of a rounding macro. *)
Definition fegetround_is_query : Prop :=
  forall e, snd (fegetround e) = e.

Definition rounding_macros_nonneg : Prop :=
  Forall (fun k => 0 <= k <= INT_MAX) rounding_macros.

Definition fesetround_establishes : Prop :=
  forall m e, In m rounding_macros ->
    fst (fegetround (snd (fesetround m e))) = m.
End FEnv.

(** ** [<fpu_control.h>]: the control word

    [fpu_control_t] is an unsigned type of [fpu_control_bits] bits (16 on
    x86); the seven macros are the values of the rounding and precision
    fields. *)

Class fpu_control_h : Type := {
  fpu_control_bits : Z;
  _FPU_RC_NEAREST : Z;
  _FPU_RC_DOWN : Z;
  _FPU_RC_UP : Z;
  _FPU_RC_ZERO : Z;
  _FPU_EXTENDED : Z;
  _FPU_DOUBLE : Z;
  _FPU_SINGLE : Z
}.

(** The floating-point unit: its control word. *)
Record fpu : Type := { cw : Z }.

Section FpuControl.
Context {hdr : fpu_control_h}.

Definition is_fpu_control_t (x : Z) : Prop := 0 <= x < 2 ^ fpu_control_bits.

(** Conversion to [fpu_control_t]. *)
Definition to_fpu_control_t (x : Z) : Z := x mod 2 ^ fpu_control_bits.

(** Modelled from the spec: the macros [_FPU_GETCW] and [_FPU_SETCW] belong
    to [<fpu_control.h>].  [_FPU_GETCW(c)] reads the full control word into
    [c] and changes nothing; [_FPU_SETCW(c)] writes the whole word from
    [c]. *)
Definition _FPU_GETCW : M fpu Z := fun s => (Returned (cw s), s).

Definition _FPU_SETCW (c : Z) : M fpu unit := fun _ => (Returned tt, {| cw := c |}).

(** [fpu_control_t mask = (_FPU_RC_NEAREST|_FPU_RC_DOWN|_FPU_RC_UP|_FPU_RC_ZERO);] *)
Definition round_mask : Z :=
  to_fpu_control_t
    (Z.lor (Z.lor (Z.lor _FPU_RC_NEAREST _FPU_RC_DOWN) _FPU_RC_UP) _FPU_RC_ZERO).

(** [fpu_control_t mask = (_FPU_EXTENDED|_FPU_DOUBLE|_FPU_SINGLE);] *)
Definition prec_mask : Z :=
  to_fpu_control_t (Z.lor (Z.lor _FPU_EXTENDED _FPU_DOUBLE) _FPU_SINGLE).

Definition mIEEE_FPU_fpu_getround : M fpu VALUE :=
  let mask := round_mask in
  c <- _FPU_GETCW ;;
  ret (UINT2NUM (Z.land c mask)).

Definition mIEEE_FPU_fpu_setround (mode : VALUE) : M fpu VALUE :=
  let mask := round_mask in
  c <- _FPU_GETCW ;;
  let new_c := c in
  let new_c := to_fpu_control_t (Z.land new_c (Z.lnot mask)) in
  m <- NUM2UINT mode ;;
  let new_c := to_fpu_control_t (Z.lor new_c m) in
  _FPU_SETCW new_c ;;;
  ret (UINT2NUM (Z.land c mask)).

Definition mIEEE_FPU_fpu_getprec : M fpu VALUE :=
  let mask := prec_mask in
  c <- _FPU_GETCW ;;
  ret (UINT2NUM (Z.land c mask)).

Definition mIEEE_FPU_fpu_setprec (prec : VALUE) : M fpu VALUE :=
  let mask := prec_mask in
  c <- _FPU_GETCW ;;
  let new_c := c in
  let new_c := to_fpu_control_t (Z.land new_c (Z.lnot mask)) in
  p <- NUM2UINT prec ;;
  let new_c := to_fpu_control_t (Z.lor new_c p) in
  _FPU_SETCW new_c ;;;
  ret (UINT2NUM (Z.land c mask)).

(** [fpu_getround] / [fpu_getprec] and [fpu_setround] / [fpu_setprec] differ
    in their mask only; [get_field] and [set_field] are their common text,
    used to state facts about both at once. *)
Definition get_field (mask : Z) : M fpu VALUE :=
  c <- _FPU_GETCW ;;
  ret (UINT2NUM (Z.land c mask)).

Definition set_field (mask : Z) (v : VALUE) : M fpu VALUE :=
  c <- _FPU_GETCW ;;
  m <- NUM2UINT v ;;
  _FPU_SETCW
    (to_fpu_control_t (Z.lor (to_fpu_control_t (Z.land c (Z.lnot mask))) m)) ;;;
  ret (UINT2NUM (Z.land c mask)).

(** The rounding and precision modes [Init_ieee_fpu_control] exports. *)
Definition rounding_modes : list Z :=
  [_FPU_RC_NEAREST; _FPU_RC_DOWN; _FPU_RC_UP; _FPU_RC_ZERO].

Definition precision_modes : list Z :=
  [_FPU_EXTENDED; _FPU_DOUBLE; _FPU_SINGLE].
End FpuControl.

(** ** Two platforms

    The x86 values of glibc's [<fpu_control.h>] (a 16-bit control word), and
    a [<fenv.h>] in the manner of glibc on x86-64, whose [fesetround]
    refuses an argument with a bit outside [0xc00] and otherwise sets the
    rounding fields of the x87 control word and of MXCSR. *)

Definition x86_fpu_control_h : fpu_control_h := {|
  fpu_control_bits := 16;
  _FPU_RC_NEAREST := 0x0;
  _FPU_RC_DOWN := 0x400;
  _FPU_RC_UP := 0x800;
  _FPU_RC_ZERO := 0xC00;
  _FPU_EXTENDED := 0x300;
  _FPU_DOUBLE := 0x200;
  _FPU_SINGLE := 0x0
|}.

Record x86_fenv : Type := { x87_cw : Z; mxcsr : Z }.

Definition x86_fegetround (e : x86_fenv) : Z * x86_fenv :=
  (Z.land (x87_cw e) 0xc00, e).

Definition x86_fesetround (round : Z) (e : x86_fenv) : Z * x86_fenv :=
  if negb (Z.land round (Z.lnot 0xc00) =? 0) then (1, e)
  else (0, {| x87_cw := field_update (x87_cw e) 0xc00 round;
              mxcsr := field_update (mxcsr e) 0x6000 (Z.shiftl round 3) |}).

Definition x86_fenv_h : fenv_h := {|
  fenv_t := x86_fenv;
  fegetround := x86_fegetround;
  fesetround := x86_fesetround;
  FE_DOWNWARD := 0x400;
  FE_TONEAREST := 0x0;
  FE_TOWARDZERO := 0xc00;
  FE_UPWARD := 0x800
|}.

(** ** [<fenv.h>] with precision control

    Under [HAVE_FESETPREC] the library also has [fegetprec] and [fesetprec]
    and three precision macros, over the same environment. *)

Class fenv_prec_h {libc : fenv_h} : Type := {
  fegetprec : fenv_t -> Z * fenv_t;
  fesetprec : Z -> fenv_t -> Z * fenv_t;
  FE_FLTPREC : Z;
  FE_DBLPREC : Z;
  FE_LDBLPREC : Z
}.

Section FEnvPrec.
Context {libc : fenv_h} {libc_prec : fenv_prec_h}.

Definition precision_macros : list Z := [FE_FLTPREC; FE_DBLPREC; FE_LDBLPREC].

Definition mIEEE_FPU_fegetprec : M fenv_t VALUE :=
  r <- call fegetprec ;;
  ret (UINT2NUM r).

Definition mIEEE_FPU_fesetprec (prec : VALUE) : M fenv_t VALUE :=
  p <- NUM2UINT prec ;;
  call (fesetprec (to_int p)) ;;;
  r <- call fegetprec ;;
  ret (UINT2NUM r).

(** What is expected of the two library functions, as of the rounding
    ones: [fegetprec] is a query, the precision macros are nonnegative
    [int]s, [fesetprec] establishes the precision of a precision macro. *)
Definition fegetprec_is_query : Prop :=
  forall e, snd (fegetprec e) = e.

Definition precision_macros_nonneg : Prop :=
  Forall (fun k => 0 <= k <= INT_MAX) precision_macros.

Definition fesetprec_establishes : Prop :=
  forall p e, In p precision_macros ->
    fst (fegetprec (snd (fesetprec p e))) = p.
End FEnvPrec.

(** An x87 precision control over the x86-64 environment, for examples:
    the precision field is bits 8 and 9 of the x87 control word. *)
Definition x86_fegetprec (e : x86_fenv) : Z * x86_fenv :=
  (Z.land (x87_cw e) 0x300, e).

Definition x86_fesetprec (prec : Z) (e : x86_fenv) : Z * x86_fenv :=
  if negb (Z.land prec (Z.lnot 0x300) =? 0) then (0, e)
  else (1, {| x87_cw := field_update (x87_cw e) 0x300 prec; mxcsr := mxcsr e |}).

Definition x86_fenv_prec_h : @fenv_prec_h x86_fenv_h := {|
  fegetprec := x86_fegetprec : @fenv_t x86_fenv_h -> Z * @fenv_t x86_fenv_h;
  fesetprec := x86_fesetprec : Z -> @fenv_t x86_fenv_h -> Z * @fenv_t x86_fenv_h;
  FE_FLTPREC := 0x0;
  FE_DBLPREC := 0x200;
  FE_LDBLPREC := 0x300
|}.

(** ** [Init_ieee_fpu_control]: what the module defines

    The three configuration macros decide what is compiled.  The module is
    the list of the constants and of the module functions defined in it, in
    the order of the calls; a module function is a C function of this file
    with the number of arguments it is registered with. *)

Record config : Type := {
  HAVE_FPU_CONTROL_H : bool;
  HAVE_FENV_H : bool;
  HAVE_FESETPREC : bool
}.

Inductive cfunc : Type :=
| c_fegetround | c_fesetround | c_fegetprec | c_fesetprec
| c_fpu_getround | c_fpu_setround | c_fpu_getprec | c_fpu_setprec.

Definition cfunc_eqb (f g : cfunc) : bool :=
  match f, g with
  | c_fegetround, c_fegetround | c_fesetround, c_fesetround
  | c_fegetprec, c_fegetprec | c_fesetprec, c_fesetprec
  | c_fpu_getround, c_fpu_getround | c_fpu_setround, c_fpu_setround
  | c_fpu_getprec, c_fpu_getprec | c_fpu_setprec, c_fpu_setprec => true
  | _, _ => false
  end.

(** The name of the C function. *)
Definition c_name (f : cfunc) : string :=
  match f with
  | c_fegetround => "mIEEE_FPU_fegetround"
  | c_fesetround => "mIEEE_FPU_fesetround"
  | c_fegetprec => "mIEEE_FPU_fegetprec"
  | c_fesetprec => "mIEEE_FPU_fesetprec"
  | c_fpu_getround => "mIEEE_FPU_fpu_getround"
  | c_fpu_setround => "mIEEE_FPU_fpu_setround"
  | c_fpu_getprec => "mIEEE_FPU_fpu_getprec"
  | c_fpu_setprec => "mIEEE_FPU_fpu_setprec"
  end.

(** The number of parameters of the C function after [self]. *)
Definition c_params (f : cfunc) : Z :=
  match f with
  | c_fegetround | c_fegetprec | c_fpu_getround | c_fpu_getprec => 0
  | c_fesetround | c_fesetprec | c_fpu_setround | c_fpu_setprec => 1
  end.

(** Whether the definition of the C function is compiled: the [#if] around
    it. *)
Definition compiled (cfg : config) (f : cfunc) : bool :=
  match f with
  | c_fegetround | c_fesetround => HAVE_FENV_H cfg
  | c_fegetprec | c_fesetprec => HAVE_FENV_H cfg && HAVE_FESETPREC cfg
  | c_fpu_getround | c_fpu_setround | c_fpu_getprec | c_fpu_setprec =>
      HAVE_FPU_CONTROL_H cfg
  end.

Record ruby_module : Type := {
  module_name : string;
  constants : list (string * VALUE);
  module_functions : list (string * (cfunc * Z))
}.

(** Modelled from the spec: [rb_define_module], [rb_define_const] and
    [rb_define_module_function] belong to [<ruby.h>]; they are the
    mechanism that registers a named constant and a native call of a given
    number of arguments in a module. *)
Definition rb_define_module (name : string) : ruby_module :=
  {| module_name := name; constants := []; module_functions := [] |}.

Definition rb_define_const (name : string) (v : VALUE) : M ruby_module unit :=
  fun m =>
    (Returned tt,
     {| module_name := module_name m;
        constants := constants m ++ [(name, v)];
        module_functions := module_functions m |}).

Definition rb_define_module_function (name : string) (f : cfunc) (argc : Z)
  : M ruby_module unit :=
  fun m =>
    (Returned tt,
     {| module_name := module_name m;
        constants := constants m;
        module_functions := module_functions m ++ [(name, (f, argc))] |}).

(** [#if flag ... #endif] *)
Definition when (flag : bool) (c : M ruby_module unit) : M ruby_module unit :=
  if flag then c else ret tt.

Section Init.
Context {hdr : fpu_control_h} {libc : fenv_h} {libc_prec : fenv_prec_h}.

Definition Init_ieee_fpu_control (cfg : config) : ruby_module :=
  let mIEEE_FPU := rb_define_module "IEEE_FPU" in
  state_after
    ((when (HAVE_FPU_CONTROL_H cfg)
        (rb_define_const "FPU_RC_NEAREST" (UINT2NUM _FPU_RC_NEAREST) ;;;
         rb_define_const "FPU_RC_DOWN" (UINT2NUM _FPU_RC_DOWN) ;;;
         rb_define_const "FPU_RC_UP" (UINT2NUM _FPU_RC_UP) ;;;
         rb_define_const "FPU_RC_ZERO" (UINT2NUM _FPU_RC_ZERO) ;;;
         rb_define_module_function "fpu_getround" c_fpu_getround 0 ;;;
         rb_define_module_function "fpu_setround" c_fpu_setround 1 ;;;
         rb_define_const "FPU_EXTENDED" (UINT2NUM _FPU_EXTENDED) ;;;
         rb_define_const "FPU_DOUBLE" (UINT2NUM _FPU_DOUBLE) ;;;
         rb_define_const "FPU_SINGLE" (UINT2NUM _FPU_SINGLE) ;;;
         rb_define_module_function "fpu_getprec" c_fpu_getprec 0 ;;;
         rb_define_module_function "fpu_setprec" c_fpu_setprec 1) ;;;
      when (HAVE_FENV_H cfg)
        (rb_define_const "FE_DOWNWARD" (UINT2NUM FE_DOWNWARD) ;;;
         rb_define_const "FE_TONEAREST" (UINT2NUM FE_TONEAREST) ;;;
         rb_define_const "FE_TOWARDZERO" (UINT2NUM FE_TOWARDZERO) ;;;
         rb_define_const "FE_UPWARD" (UINT2NUM FE_UPWARD) ;;;
         rb_define_module_function "fegetround" c_fegetround 0 ;;;
         rb_define_module_function "fesetround" c_fesetround 1 ;;;
         when (HAVE_FESETPREC cfg)
           (rb_define_const "FE_FLTPREC" (UINT2NUM FE_FLTPREC) ;;;
            rb_define_const "FE_DBLPREC" (UINT2NUM FE_DBLPREC) ;;;
            rb_define_const "FE_LDBLPREC" (UINT2NUM FE_LDBLPREC) ;;;
            rb_define_module_function "fegetprec" c_fegetprec 0 ;;;
            rb_define_module_function "fesetprec" c_fesetprec 1)))
       mIEEE_FPU).

(** The constant of a name, as the module holds it. *)
Definition const_get (m : ruby_module) (name : string) : option VALUE :=
  match find (fun d => String.eqb (fst d) name) (constants m) with
  | Some d => Some (snd d)
  | None => None
  end.

(** The module function of a name. *)
Definition function_get (m : ruby_module) (name : string) : option (cfunc * Z) :=
  match find (fun d => String.eqb (fst d) name) (module_functions m) with
  | Some d => Some (snd d)
  | None => None
  end.
End Init.

(** * Properties *)

(** ** Bit fields *)

Ltac to_bits :=
  repeat first
    [ rewrite Z.land_spec | rewrite Z.lor_spec
    | rewrite Z.lnot_spec by assumption
    | rewrite Z.testbit_mod_pow2 by assumption
    | rewrite Z.bits_0 ].

Ltac to_bits_in E :=
  repeat first
    [ rewrite Z.land_spec in E | rewrite Z.lor_spec in E
    | rewrite Z.lnot_spec in E by assumption
    | rewrite Z.testbit_mod_pow2 in E by assumption
    | rewrite Z.bits_0 in E ].

Ltac bit_of H i :=
  let E := fresh "E" in
  pose proof (f_equal (fun z => Z.testbit z i) H) as E;
  cbv beta in E; to_bits_in E.

Ltac bitwise i Hi := apply Z.bits_inj'; intros i Hi; to_bits.

Ltac bool_cases :=
  repeat match goal with
         | H : context [Z.testbit _ _] |- _ => revert H
         end;
  repeat match goal with
         | |- context [Z.testbit ?x ?i] => destruct (Z.testbit x i)
         | |- context [?i <? ?n] => destruct (i <? n)
         end;
  simpl; congruence.

Lemma within_testbit (m k i : Z) :
  within m k -> 0 <= i -> Z.testbit m i = true -> Z.testbit k i = true.
Proof.
  unfold within; intros H Hi Hm. bit_of H i. bool_cases.
Qed.

Lemma within_land (c k : Z) : within (Z.land c k) k.
Proof. unfold within. bitwise i Hi. bool_cases. Qed.

Lemma within_nonneg (m k : Z) : 0 <= k -> within m k -> 0 <= m.
Proof.
  unfold within; intros Hk H.
  destruct (Z.neg_nonneg_cases m) as [Hneg|]; [exfalso|assumption].
  assert (Hl : Z.land m (Z.lnot k) < 0).
  { apply Z.land_neg. split; [assumption|]. apply Z.lnot_neg. assumption. }
  lia.
Qed.

Lemma field_update_read (c k m : Z) :
  within m k -> Z.land (field_update c k m) k = m.
Proof.
  unfold within, field_update; intros H. bitwise i Hi. bit_of H i. bool_cases.
Qed.

Lemma field_update_frame (c k m : Z) :
  within m k -> Z.land (field_update c k m) (Z.lnot k) = Z.land c (Z.lnot k).
Proof.
  unfold within, field_update; intros H. bitwise i Hi. bit_of H i. bool_cases.
Qed.

Lemma field_update_other (c k k' m : Z) :
  Z.land k k' = 0 -> within m k ->
  Z.land (field_update c k m) k' = Z.land c k'.
Proof.
  unfold within, field_update; intros Hd H. bitwise i Hi.
  bit_of H i. bit_of Hd i. bool_cases.
Qed.

Lemma field_update_converged (c k m : Z) :
  Z.land c k = m -> field_update c k m = c.
Proof.
  unfold field_update; intros H. bitwise i Hi. bit_of H i. bool_cases.
Qed.

Lemma field_update_restore (c k m : Z) :
  within m k -> field_update (field_update c k m) k (Z.land c k) = c.
Proof.
  unfold within, field_update; intros H. bitwise i Hi. bit_of H i. bool_cases.
Qed.

(** ** C conversions *)

Lemma to_uint_small (x : Z) : is_uint x -> to_uint x = x.
Proof. unfold is_uint, to_uint, UINT_MAX. intros H. apply Z.mod_small. lia. Qed.

Lemma to_int_small (x : Z) : 0 <= x <= INT_MAX -> to_int x = x.
Proof.
  unfold to_int, INT_MAX. intros H.
  rewrite Z.mod_small by lia.
  destruct (Z.ltb_spec x (2 ^ 31)); lia.
Qed.

Lemma to_uint_within (x k : Z) : within x k -> within (to_uint x) k.
Proof.
  unfold within, to_uint; intros H.
  assert (H32 : 0 <= 32) by lia.
  bitwise i Hi. bit_of H i. bool_cases.
Qed.

Lemma NUM2UINT_uint {S : Type} (v : VALUE) (s : S) :
  is_uint v -> NUM2UINT v s = (Returned v, s).
Proof.
  intros H. unfold NUM2UINT.
  replace ((INT_MIN <=? v) && (v <=? UINT_MAX)) with true.
  - unfold ret. rewrite to_uint_small by assumption. reflexivity.
  - symmetry. apply andb_true_iff. unfold is_uint, INT_MIN, UINT_MAX in *.
    split; apply Z.leb_le; lia.
Qed.

Lemma NUM2UINT_cases {S : Type} (v : VALUE) (s : S) :
  NUM2UINT v s = (Returned (to_uint v), s) \/ NUM2UINT v s = (Raised RangeError, s).
Proof.
  unfold NUM2UINT. destruct ((INT_MIN <=? v) && (v <=? UINT_MAX)); [left|right]; reflexivity.
Qed.

(** ** The control word: one field read and written under a mask *)

Section FpuControlFacts.
Context {hdr : fpu_control_h}.

Lemma fpu_getround_eq : mIEEE_FPU_fpu_getround = get_field round_mask.
Proof. reflexivity. Qed.

Lemma fpu_getprec_eq : mIEEE_FPU_fpu_getprec = get_field prec_mask.
Proof. reflexivity. Qed.

Lemma fpu_setround_eq mode : mIEEE_FPU_fpu_setround mode = set_field round_mask mode.
Proof. reflexivity. Qed.

Lemma fpu_setprec_eq prec : mIEEE_FPU_fpu_setprec prec = set_field prec_mask prec.
Proof. reflexivity. Qed.

Lemma get_field_run mask s :
  get_field mask s = (Returned (UINT2NUM (Z.land (cw s) mask)), s).
Proof. reflexivity. Qed.

(** A set function whose argument converts: it writes the updated word,
    truncated to the width of [fpu_control_t], and returns the field of
    the word it read. *)
Lemma set_field_run mask v s :
  is_uint v ->
  set_field mask v s =
    (Returned (UINT2NUM (Z.land (cw s) mask)),
     {| cw := to_fpu_control_t
                (Z.lor (to_fpu_control_t (Z.land (cw s) (Z.lnot mask))) v) |}).
Proof.
  intros Hv. unfold set_field, bind, _FPU_GETCW.
  rewrite (NUM2UINT_uint v s Hv). reflexivity.
Qed.

(** Whatever the argument, the function either raises before the write,
    leaving the control word alone, or returns the field it read. *)
Lemma set_field_cases mask v s :
  (exists s', set_field mask v s = (Returned (UINT2NUM (Z.land (cw s) mask)), s'))
  \/ set_field mask v s = (Raised RangeError, s).
Proof.
  unfold set_field, bind, _FPU_GETCW.
  destruct (NUM2UINT_cases v s) as [E|E]; rewrite E; [left|right].
  - eexists. reflexivity.
  - reflexivity.
Qed.

Hypothesis bits_nonneg : 0 <= fpu_control_bits.

Lemma to_fpu_control_t_iff x : is_fpu_control_t x <-> to_fpu_control_t x = x.
Proof.
  unfold is_fpu_control_t, to_fpu_control_t. split; intros H.
  - apply Z.mod_small, H.
  - rewrite <- H. apply Z.mod_pos_bound. apply Z.pow_pos_nonneg; lia.
Qed.

Lemma to_fpu_control_t_range x : is_fpu_control_t (to_fpu_control_t x).
Proof.
  unfold is_fpu_control_t, to_fpu_control_t.
  apply Z.mod_pos_bound. apply Z.pow_pos_nonneg; lia.
Qed.

Lemma within_is_fpu_control_t m k :
  is_fpu_control_t k -> within m k -> is_fpu_control_t m.
Proof.
  unfold within; intros Hk H.
  apply to_fpu_control_t_iff in Hk. apply to_fpu_control_t_iff.
  unfold to_fpu_control_t in *. bitwise i Hi. bit_of H i. bit_of Hk i. bool_cases.
Qed.

Lemma round_mask_is_fpu_control_t : is_fpu_control_t round_mask.
Proof. apply to_fpu_control_t_range. Qed.

Lemma prec_mask_is_fpu_control_t : is_fpu_control_t prec_mask.
Proof. apply to_fpu_control_t_range. Qed.

(** The two truncations of the C text do not lose a bit of a word and an
    argument that fit [fpu_control_t]. *)
Lemma update_fits c k m :
  is_fpu_control_t c -> is_fpu_control_t m ->
  to_fpu_control_t (Z.lor (to_fpu_control_t (Z.land c (Z.lnot k))) m)
  = field_update c k m.
Proof.
  intros Hc Hm.
  apply to_fpu_control_t_iff in Hc. apply to_fpu_control_t_iff in Hm.
  unfold to_fpu_control_t, field_update in *.
  bitwise i Hi. bit_of Hc i. bit_of Hm i. bool_cases.
Qed.

(** In general the written word is the update truncated. *)
Lemma update_truncates c k m :
  to_fpu_control_t (Z.lor (to_fpu_control_t (Z.land c (Z.lnot k))) m)
  = to_fpu_control_t (field_update c k m).
Proof.
  unfold to_fpu_control_t, field_update. bitwise i Hi. bool_cases.
Qed.

Lemma field_update_is_fpu_control_t c k m :
  is_fpu_control_t c -> is_fpu_control_t m ->
  is_fpu_control_t (field_update c k m).
Proof.
  intros Hc Hm. rewrite <- (update_fits c k m Hc Hm).
  apply to_fpu_control_t_range.
Qed.

Lemma mode_within_round_mask m :
  Forall is_fpu_control_t rounding_modes -> In m rounding_modes ->
  within m round_mask.
Proof.
  unfold rounding_modes, round_mask, within, to_fpu_control_t.
  intros Hall Hin.
  assert (Hm : is_fpu_control_t m) by (eapply Forall_forall; eassumption).
  apply to_fpu_control_t_iff in Hm. unfold to_fpu_control_t in Hm.
  simpl in Hin.
  bitwise i Hi. bit_of Hm i.
  destruct Hin as [<-|[<-|[<-|[<-|[]]]]]; bool_cases.
Qed.

Lemma mode_within_prec_mask p :
  Forall is_fpu_control_t precision_modes -> In p precision_modes ->
  within p prec_mask.
Proof.
  unfold precision_modes, prec_mask, within, to_fpu_control_t.
  intros Hall Hin.
  assert (Hp : is_fpu_control_t p) by (eapply Forall_forall; eassumption).
  apply to_fpu_control_t_iff in Hp. unfold to_fpu_control_t in Hp.
  simpl in Hin.
  bitwise i Hi. bit_of Hp i.
  destruct Hin as [<-|[<-|[<-|[]]]]; bool_cases.
Qed.

Hypothesis bits_uint : fpu_control_bits <= 32.

Lemma is_fpu_control_t_uint x : is_fpu_control_t x -> is_uint x.
Proof.
  unfold is_fpu_control_t, is_uint, UINT_MAX. intros H.
  assert (2 ^ fpu_control_bits <= 2 ^ 32) by (apply Z.pow_le_mono_r; lia).
  lia.
Qed.

(** A field of a control word converts to a Ruby [Integer] unchanged. *)
Lemma UINT2NUM_field c k :
  is_fpu_control_t k -> UINT2NUM (Z.land c k) = Z.land c k.
Proof.
  intros Hk. unfold UINT2NUM. apply to_uint_small, is_fpu_control_t_uint.
  apply (within_is_fpu_control_t _ k Hk), within_land.
Qed.
End FpuControlFacts.

Lemma within_disjoint (r k k' : Z) :
  within r k -> Z.land k k' = 0 -> Z.land r k' = 0.
Proof.
  unfold within; intros H Hd. bitwise i Hi. bit_of H i. bit_of Hd i. bool_cases.
Qed.

Section FpuControlWords.
Context {hdr : fpu_control_h}.
Hypothesis bits_nonneg : 0 <= fpu_control_bits.

(** A mask is a [fpu_control_t]: the truncation of a word keeps every bit
    the mask selects. *)
Lemma land_truncated x k :
  is_fpu_control_t k -> Z.land (to_fpu_control_t x) k = Z.land x k.
Proof.
  intros Hk. apply to_fpu_control_t_iff in Hk; [|assumption].
  unfold to_fpu_control_t in *. bitwise i Hi. bit_of Hk i. bool_cases.
Qed.

Lemma written_field_read c k m :
  is_fpu_control_t k -> within m k ->
  Z.land (to_fpu_control_t (Z.lor (to_fpu_control_t (Z.land c (Z.lnot k))) m)) k = m.
Proof.
  intros Hk H. rewrite update_truncates, land_truncated by assumption.
  apply field_update_read, H.
Qed.

Lemma written_field_other c k k' m :
  is_fpu_control_t k' -> Z.land k k' = 0 -> within m k ->
  Z.land (to_fpu_control_t (Z.lor (to_fpu_control_t (Z.land c (Z.lnot k))) m)) k'
  = Z.land c k'.
Proof.
  intros Hk' Hd H. rewrite update_truncates, land_truncated by assumption.
  apply field_update_other; assumption.
Qed.

Lemma written_bit c k m i :
  0 <= i < fpu_control_bits -> Z.testbit m i = true ->
  Z.testbit
    (to_fpu_control_t (Z.lor (to_fpu_control_t (Z.land c (Z.lnot k))) m)) i = true.
Proof.
  intros Hi Hm. rewrite update_truncates by assumption.
  unfold to_fpu_control_t, field_update.
  rewrite Z.testbit_mod_pow2, Z.lor_spec, Hm by assumption.
  rewrite orb_true_r, andb_true_r. apply Z.ltb_lt. lia.
Qed.
End FpuControlWords.

(** * The control-word functions *)

(** C1. [fpu_setround] is a read-modify-write of the whole control word:
    from a control word [c] and a mode [m] (both values of
    [fpu_control_t]) it writes [(c AND NOT round_mask) OR m] and returns
    [c AND round_mask], the rounding bits of the word it read, not of the
    word it wrote. *)
Theorem fpu_setround_read_modify_write {hdr : fpu_control_h} (s : fpu) (m : VALUE) :
  0 <= fpu_control_bits <= 32 ->
  is_fpu_control_t (cw s) ->
  is_fpu_control_t m ->
  mIEEE_FPU_fpu_setround m s =
    (Returned (Z.land (cw s) round_mask),
     {| cw := Z.lor (Z.land (cw s) (Z.lnot round_mask)) m |}).
Proof.
  intros [Hlo Hhi] Hc Hm.
  rewrite fpu_setround_eq, set_field_run
    by (apply is_fpu_control_t_uint; assumption).
  rewrite UINT2NUM_field
    by (assumption || apply round_mask_is_fpu_control_t; assumption).
  rewrite update_fits by assumption.
  reflexivity.
Qed.

Lemma fpu_setround_read_modify_write_x86 :
  @mIEEE_FPU_fpu_setround x86_fpu_control_h 0x400 {| cw := 0x37F |}
  = (Returned 0, {| cw := 0x77F |}).
Proof.
  apply (@fpu_setround_read_modify_write x86_fpu_control_h {| cw := 0x37F |} 0x400);
    unfold is_fpu_control_t; simpl; lia.
Defined.

(** The value [fpu_setround] returns can differ from the rounding bits of
    the word it leaves. *)
Lemma fpu_setround_returns_previous_x86 :
  result (@mIEEE_FPU_fpu_setround x86_fpu_control_h 0x400 {| cw := 0x37F |}) = Some 0
  /\ result (@mIEEE_FPU_fpu_getround x86_fpu_control_h {| cw := 0x77F |}) = Some 0x400.
Proof. split; reflexivity. Qed.

(** C2, as amended.  A set function leaves the other field alone when its
    argument has no bit outside its own mask: after [fpu_setround m] with
    [m] within the rounding mask, [fpu_getprec] returns what it returned
    before and every bit outside the rounding mask is as it was; likewise
    for [fpu_setprec p] with [p] within the precision mask and
    [fpu_getround]. *)
Theorem fpu_set_non_interference {hdr : fpu_control_h} (s : fpu) (m p : VALUE) :
  0 <= fpu_control_bits <= 32 ->
  Z.land round_mask prec_mask = 0 ->
  is_fpu_control_t (cw s) ->
  within m round_mask ->
  within p prec_mask ->
  exists r1 s1 r2 s2,
    mIEEE_FPU_fpu_setround m s = (Returned r1, s1)
    /\ fst (mIEEE_FPU_fpu_getprec s1) = fst (mIEEE_FPU_fpu_getprec s)
    /\ Z.land (cw s1) (Z.lnot round_mask) = Z.land (cw s) (Z.lnot round_mask)
    /\ mIEEE_FPU_fpu_setprec p s = (Returned r2, s2)
    /\ fst (mIEEE_FPU_fpu_getround s2) = fst (mIEEE_FPU_fpu_getround s)
    /\ Z.land (cw s2) (Z.lnot prec_mask) = Z.land (cw s) (Z.lnot prec_mask).
Proof.
  intros [Hlo Hhi] Hd Hc Hm Hp.
  pose proof (round_mask_is_fpu_control_t Hlo) as Hrk.
  pose proof (prec_mask_is_fpu_control_t Hlo) as Hpk.
  pose proof (within_is_fpu_control_t Hlo _ _ Hrk Hm) as Hm'.
  pose proof (within_is_fpu_control_t Hlo _ _ Hpk Hp) as Hp'.
  do 4 eexists.
  rewrite fpu_setround_eq, fpu_setprec_eq.
  rewrite !set_field_run by (apply is_fpu_control_t_uint; assumption).
  rewrite fpu_getprec_eq, fpu_getround_eq, !get_field_run. simpl.
  rewrite !update_fits by assumption.
  repeat split.
  - f_equal. f_equal. apply field_update_other; assumption.
  - apply field_update_frame; assumption.
  - f_equal. f_equal. apply field_update_other; [rewrite Z.land_comm|]; assumption.
  - apply field_update_frame; assumption.
Qed.

Lemma fpu_set_non_interference_x86 :
  exists r1 s1 r2 s2,
    @mIEEE_FPU_fpu_setround x86_fpu_control_h 0xC00 {| cw := 0x27F |} = (Returned r1, s1)
    /\ fst (@mIEEE_FPU_fpu_getprec x86_fpu_control_h s1) = Returned 0x200
    /\ Z.land (cw s1) (Z.lnot 0xC00) = 0x27F
    /\ @mIEEE_FPU_fpu_setprec x86_fpu_control_h 0x300 {| cw := 0x27F |} = (Returned r2, s2)
    /\ fst (@mIEEE_FPU_fpu_getround x86_fpu_control_h s2) = Returned 0
    /\ Z.land (cw s2) (Z.lnot 0x300) = 0x7F.
Proof.
  apply (@fpu_set_non_interference x86_fpu_control_h {| cw := 0x27F |} 0xC00 0x300);
    try reflexivity; unfold is_fpu_control_t; simpl; lia.
Defined.

(** C2, as stated, fails: an argument of [fpu_setround] that is a value of
    [fpu_control_t] but has a bit of the precision field changes what
    [fpu_getprec] returns.  On an x86 control word [0x7F] (single
    precision), [fpu_setround 0x200] leaves [0x27F] (double precision). *)
Lemma fpu_setround_argument_disturbs_precision :
  ~ (forall (hdr : fpu_control_h) (s : fpu) (m : VALUE),
        0 <= fpu_control_bits <= 32 ->
        Z.land round_mask prec_mask = 0 ->
        is_fpu_control_t (cw s) ->
        is_fpu_control_t m ->
        fst (mIEEE_FPU_fpu_getprec (snd (mIEEE_FPU_fpu_setround m s)))
        = fst (mIEEE_FPU_fpu_getprec s)).
Proof.
  intros H.
  specialize (H x86_fpu_control_h {| cw := 0x7F |} 0x200).
  assert (E : @Returned VALUE 0x200 = Returned 0).
  { apply H; try reflexivity; unfold is_fpu_control_t; simpl; lia. }
  discriminate E.
Qed.

(** C5. [fpu_getround] returns a value with rounding-mask bits only, and so
    no bit of a field disjoint from the rounding mask (the precision field
    among them); [fpu_getprec] returns precision-mask bits only. *)
Theorem fpu_get_mask_correct {hdr : fpu_control_h} (s : fpu) :
  exists r q,
    mIEEE_FPU_fpu_getround s = (Returned r, s)
    /\ within r round_mask
    /\ (forall k, Z.land round_mask k = 0 -> Z.land r k = 0)
    /\ mIEEE_FPU_fpu_getprec s = (Returned q, s)
    /\ within q prec_mask
    /\ (forall k, Z.land prec_mask k = 0 -> Z.land q k = 0).
Proof.
  exists (UINT2NUM (Z.land (cw s) round_mask)), (UINT2NUM (Z.land (cw s) prec_mask)).
  assert (Hr : within (UINT2NUM (Z.land (cw s) round_mask)) round_mask)
    by apply to_uint_within, within_land.
  assert (Hq : within (UINT2NUM (Z.land (cw s) prec_mask)) prec_mask)
    by apply to_uint_within, within_land.
  repeat split; try assumption.
  - intros k Hk. apply (within_disjoint _ _ _ Hr Hk).
  - intros k Hk. apply (within_disjoint _ _ _ Hq Hk).
Qed.

(** C6. The set functions do not mask their argument: a bit of the argument
    that lies in the control word but outside the mask of the function is
    set in the word the function writes, whatever the word was. *)
Theorem fpu_set_leaks_argument_bits {hdr : fpu_control_h} (s : fpu) (m : VALUE) (i : Z) :
  is_uint m ->
  0 <= i < fpu_control_bits ->
  Z.testbit m i = true ->
  (Z.testbit round_mask i = false ->
   exists r s', mIEEE_FPU_fpu_setround m s = (Returned r, s')
                /\ Z.testbit (cw s') i = true)
  /\ (Z.testbit prec_mask i = false ->
      exists r s', mIEEE_FPU_fpu_setprec m s = (Returned r, s')
                   /\ Z.testbit (cw s') i = true).
Proof.
  intros Hm Hi Hbit.
  assert (Hlo : 0 <= fpu_control_bits) by lia.
  split; intros _; do 2 eexists;
    rewrite ?fpu_setround_eq, ?fpu_setprec_eq, set_field_run by assumption;
    (split; [reflexivity|]); simpl; apply written_bit; assumption.
Qed.

Lemma fpu_set_leaks_argument_bits_x86 :
  (exists r s',
      @mIEEE_FPU_fpu_setround x86_fpu_control_h 0x200 {| cw := 0x7F |} = (Returned r, s')
      /\ Z.testbit (cw s') 9 = true)
  /\ (exists r s',
        @mIEEE_FPU_fpu_setprec x86_fpu_control_h 0x800 {| cw := 0x7F |} = (Returned r, s')
        /\ Z.testbit (cw s') 11 = true).
Proof.
  split.
  - apply (proj1 (@fpu_set_leaks_argument_bits x86_fpu_control_h {| cw := 0x7F |} 0x200 9
                    ltac:(unfold is_uint, UINT_MAX; lia) ltac:(simpl; lia) eq_refl)).
    reflexivity.
  - apply (proj2 (@fpu_set_leaks_argument_bits x86_fpu_control_h {| cw := 0x7F |} 0x800 11
                    ltac:(unfold is_uint, UINT_MAX; lia) ltac:(simpl; lia) eq_refl)).
    reflexivity.
Defined.

(** C8. From any control word, [fpu_setprec _FPU_DOUBLE] then
    [fpu_setround _FPU_RC_ZERO] then [fpu_getprec]: the last call returns
    [_FPU_DOUBLE]. *)
Theorem fpu_setprec_setround_getprec {hdr : fpu_control_h} (s : fpu) :
  0 <= fpu_control_bits <= 32 ->
  Forall is_fpu_control_t rounding_modes ->
  Forall is_fpu_control_t precision_modes ->
  Z.land round_mask prec_mask = 0 ->
  exists r1 s1 r2 s2,
    mIEEE_FPU_fpu_setprec _FPU_DOUBLE s = (Returned r1, s1)
    /\ mIEEE_FPU_fpu_setround _FPU_RC_ZERO s1 = (Returned r2, s2)
    /\ mIEEE_FPU_fpu_getprec s2 = (Returned _FPU_DOUBLE, s2).
Proof.
  intros [Hlo Hhi] Hrm Hpm Hd.
  pose proof (round_mask_is_fpu_control_t Hlo) as Hrk.
  pose proof (prec_mask_is_fpu_control_t Hlo) as Hpk.
  assert (HD : within _FPU_DOUBLE prec_mask).
  { apply mode_within_prec_mask; [assumption | assumption | simpl; auto]. }
  assert (HZ : within _FPU_RC_ZERO round_mask).
  { apply mode_within_round_mask; [assumption | assumption | simpl; auto]. }
  assert (HDu : is_uint _FPU_DOUBLE).
  { apply is_fpu_control_t_uint; try assumption.
    apply (within_is_fpu_control_t Hlo _ _ Hpk HD). }
  assert (HZu : is_uint _FPU_RC_ZERO).
  { apply is_fpu_control_t_uint; try assumption.
    apply (within_is_fpu_control_t Hlo _ _ Hrk HZ). }
  do 4 eexists.
  rewrite fpu_setprec_eq, fpu_setround_eq, fpu_getprec_eq.
  rewrite !set_field_run by assumption.
  repeat split. rewrite get_field_run. simpl.
  rewrite UINT2NUM_field by assumption.
  rewrite written_field_other by assumption.
  rewrite written_field_read by assumption.
  reflexivity.
Qed.

Lemma fpu_setprec_setround_getprec_x86 :
  exists r1 s1 r2 s2,
    @mIEEE_FPU_fpu_setprec x86_fpu_control_h 0x200 {| cw := 0x37F |} = (Returned r1, s1)
    /\ @mIEEE_FPU_fpu_setround x86_fpu_control_h 0xC00 s1 = (Returned r2, s2)
    /\ @mIEEE_FPU_fpu_getprec x86_fpu_control_h s2 = (Returned 0x200, s2).
Proof.
  apply (@fpu_setprec_setround_getprec x86_fpu_control_h {| cw := 0x37F |}).
  - simpl; lia.
  - repeat apply Forall_cons; try apply Forall_nil;
      unfold is_fpu_control_t; simpl; lia.
  - repeat apply Forall_cons; try apply Forall_nil;
      unfold is_fpu_control_t; simpl; lia.
  - reflexivity.
Defined.

(** C10. The value a set function returns has bits of its mask only,
    whatever the control word and whatever the argument: it is the word
    read before the write, under the mask.  An argument that converts to
    [unsigned int] makes the function return; for any argument at all, a
    value that is returned lies within the mask. *)
Theorem fpu_set_returns_within_mask {hdr : fpu_control_h} (s : fpu) (v : VALUE) :
  is_uint v ->
  (exists r s', mIEEE_FPU_fpu_setround v s = (Returned r, s')
                /\ r = UINT2NUM (Z.land (cw s) round_mask)
                /\ within r round_mask)
  /\ (exists q s', mIEEE_FPU_fpu_setprec v s = (Returned q, s')
                   /\ q = UINT2NUM (Z.land (cw s) prec_mask)
                   /\ within q prec_mask)
  /\ (forall w r s', mIEEE_FPU_fpu_setround w s = (Returned r, s') -> within r round_mask)
  /\ (forall w q s', mIEEE_FPU_fpu_setprec w s = (Returned q, s') -> within q prec_mask).
Proof.
  intros Hv.
  assert (Hin : forall k, within (UINT2NUM (Z.land (cw s) k)) k)
    by (intros k; apply to_uint_within, within_land).
  assert (Hany : forall k w r s',
             set_field k w s = (Returned r, s') -> within r k).
  { intros k w r s' E.
    destruct (set_field_cases k w s) as [[s'' E']|E']; rewrite E' in E.
    - injection E as <- _. apply Hin.
    - discriminate E. }
  repeat split.
  - do 2 eexists. rewrite fpu_setround_eq, set_field_run by assumption.
    repeat split. apply Hin.
  - do 2 eexists. rewrite fpu_setprec_eq, set_field_run by assumption.
    repeat split. apply Hin.
  - intros w r s'. rewrite fpu_setround_eq. apply Hany.
  - intros w q s'. rewrite fpu_setprec_eq. apply Hany.
Qed.

Lemma fpu_set_returns_within_mask_x86 :
  (exists r s',
      @mIEEE_FPU_fpu_setround x86_fpu_control_h 0xFFFF {| cw := 0x0F7F |} = (Returned r, s')
      /\ r = 0xC00 /\ within r 0xC00)
  /\ (exists q s',
        @mIEEE_FPU_fpu_setprec x86_fpu_control_h 0xFFFF {| cw := 0x0F7F |} = (Returned q, s')
        /\ q = 0x300 /\ within q 0x300).
Proof.
  pose proof (@fpu_set_returns_within_mask x86_fpu_control_h {| cw := 0x0F7F |} 0xFFFF
                ltac:(unfold is_uint, UINT_MAX; lia)) as [H1 [H2 _]].
  split; assumption.
Defined.

(** X1. What a set function writes, for any argument that converts: the update
    truncated to the width of [fpu_control_t] (a bit of the argument at or
    above that width is dropped), a value of [fpu_control_t] again. *)
Theorem fpu_set_writes_truncated_update {hdr : fpu_control_h} (s : fpu) (v : VALUE) :
  0 <= fpu_control_bits ->
  is_uint v ->
  exists r s' q s'',
    mIEEE_FPU_fpu_setround v s = (Returned r, s')
    /\ cw s' = to_fpu_control_t (Z.lor (Z.land (cw s) (Z.lnot round_mask)) v)
    /\ is_fpu_control_t (cw s')
    /\ mIEEE_FPU_fpu_setprec v s = (Returned q, s'')
    /\ cw s'' = to_fpu_control_t (Z.lor (Z.land (cw s) (Z.lnot prec_mask)) v)
    /\ is_fpu_control_t (cw s'').
Proof.
  intros Hlo Hv. do 4 eexists.
  rewrite fpu_setround_eq, fpu_setprec_eq, !set_field_run by assumption.
  simpl. rewrite !update_truncates by assumption.
  repeat split; apply to_fpu_control_t_range; assumption.
Qed.

Lemma fpu_set_writes_truncated_update_x86 :
  exists r s' q s'',
    @mIEEE_FPU_fpu_setround x86_fpu_control_h 0x10400 {| cw := 0x37F |} = (Returned r, s')
    /\ cw s' = 0x77F
    /\ 0 <= cw s' < 2 ^ 16
    /\ @mIEEE_FPU_fpu_setprec x86_fpu_control_h 0x10400 {| cw := 0x37F |} = (Returned q, s'')
    /\ cw s'' = 0x47F
    /\ 0 <= cw s'' < 2 ^ 16.
Proof.
  apply (@fpu_set_writes_truncated_update x86_fpu_control_h {| cw := 0x37F |} 0x10400);
    [simpl | unfold is_uint, UINT_MAX]; lia.
Defined.

(** X2. The value [fpu_setround] returns restores the word: after
    [r = fpu_setround m], with [m] within the rounding mask,
    [fpu_setround r] returns [m] and leaves the control word that was there
    before the first call. *)
Theorem fpu_setround_restores {hdr : fpu_control_h} (s : fpu) (m : VALUE) :
  0 <= fpu_control_bits <= 32 ->
  is_fpu_control_t (cw s) ->
  within m round_mask ->
  exists r s1,
    mIEEE_FPU_fpu_setround m s = (Returned r, s1)
    /\ mIEEE_FPU_fpu_setround r s1 = (Returned m, s).
Proof.
  intros [Hlo Hhi] Hc Hw.
  pose proof (round_mask_is_fpu_control_t Hlo) as Hk.
  pose proof (within_is_fpu_control_t Hlo _ _ Hk Hw) as Hm.
  pose proof (within_is_fpu_control_t Hlo _ _ Hk (within_land (cw s) round_mask)) as Hr.
  do 2 eexists.
  rewrite fpu_setround_eq.
  rewrite (set_field_run round_mask m) by (apply is_fpu_control_t_uint; assumption).
  split; [reflexivity|].
  rewrite UINT2NUM_field by assumption.
  rewrite fpu_setround_eq.
  rewrite set_field_run by (apply is_fpu_control_t_uint; assumption).
  simpl. rewrite UINT2NUM_field by assumption.
  rewrite written_field_read by assumption.
  rewrite (update_fits Hlo (cw s)) by assumption.
  rewrite update_fits
    by (assumption || apply field_update_is_fpu_control_t; assumption).
  rewrite field_update_restore by assumption.
  destruct s; reflexivity.
Qed.

Lemma fpu_setround_restores_x86 :
  exists r s1,
    @mIEEE_FPU_fpu_setround x86_fpu_control_h 0xC00 {| cw := 0x37F |} = (Returned r, s1)
    /\ @mIEEE_FPU_fpu_setround x86_fpu_control_h r s1 = (Returned 0xC00, {| cw := 0x37F |}).
Proof.
  apply (@fpu_setround_restores x86_fpu_control_h {| cw := 0x37F |} 0xC00);
    try reflexivity; unfold is_fpu_control_t; simpl; lia.
Defined.

(** * The floating-point environment functions *)

Section FEnvFacts.
Context {libc : fenv_h}.

Lemma fegetround_run e :
  mIEEE_FPU_fegetround e
  = (Returned (UINT2NUM (fst (fegetround e))), snd (fegetround e)).
Proof.
  unfold mIEEE_FPU_fegetround, bind, call, ret.
  destruct (fegetround e); reflexivity.
Qed.

Lemma fesetround_run m e :
  is_uint m ->
  mIEEE_FPU_fesetround m e
  = (Returned (UINT2NUM (fst (fegetround (snd (fesetround (to_int m) e))))),
     snd (fegetround (snd (fesetround (to_int m) e)))).
Proof.
  intros Hm. unfold mIEEE_FPU_fesetround, bind.
  rewrite (NUM2UINT_uint m e Hm). unfold call, ret.
  destruct (fesetround (to_int m) e) as [z e1]. simpl.
  destruct (fegetround e1); reflexivity.
Qed.

Hypothesis query : fegetround_is_query.
Hypothesis nonneg : rounding_macros_nonneg.

Lemma rounding_macro_int m : In m rounding_macros -> 0 <= m <= INT_MAX.
Proof.
  intros Hin. unfold rounding_macros_nonneg in nonneg.
  rewrite Forall_forall in nonneg. apply nonneg, Hin.
Qed.

Lemma rounding_macro_uint m : In m rounding_macros -> is_uint m.
Proof.
  intros Hin. apply rounding_macro_int in Hin.
  unfold is_uint, UINT_MAX, INT_MAX in *. lia.
Qed.

Hypothesis establishes : fesetround_establishes.

(** Setting a rounding macro returns it and leaves an environment in
    which the query returns it. *)
Lemma fesetround_macro m e :
  In m rounding_macros ->
  exists e1,
    mIEEE_FPU_fesetround m e = (Returned m, e1)
    /\ mIEEE_FPU_fegetround e1 = (Returned m, e1).
Proof.
  intros Hin.
  pose proof (rounding_macro_int m Hin) as Hint.
  pose proof (rounding_macro_uint m Hin) as Huint.
  exists (snd (fesetround m e)).
  rewrite fesetround_run, fegetround_run by assumption.
  rewrite to_int_small by assumption.
  rewrite !query, (establishes m e Hin).
  unfold UINT2NUM. rewrite to_uint_small by assumption.
  split; reflexivity.
Qed.
End FEnvFacts.

(** ** The x86-64 environment satisfies what the C standard says *)

Lemma x86_fegetround_is_query : @fegetround_is_query x86_fenv_h.
Proof. intros e. reflexivity. Qed.

Lemma x86_rounding_macros_nonneg : @rounding_macros_nonneg x86_fenv_h.
Proof.
  unfold rounding_macros_nonneg, rounding_macros, INT_MAX. simpl.
  repeat apply Forall_cons; try apply Forall_nil; lia.
Qed.

Lemma x86_fesetround_establishes : @fesetround_establishes x86_fenv_h.
Proof.
  intros m e Hin. simpl in *.
  assert (Hw : within m 0xc00).
  { destruct Hin as [<-|[<-|[<-|[<-|[]]]]]; reflexivity. }
  unfold x86_fesetround, x86_fegetround.
  unfold within in Hw. rewrite Hw. simpl.
  apply field_update_read, Hw.
Qed.

(** C3. With [<fenv.h>], for each of the four rounding macros [m]:
    [fegetround] called right after [fesetround m] returns [m]. *)
Theorem fesetround_fegetround_round_trip {libc : fenv_h} (e : fenv_t) (m : VALUE) :
  fegetround_is_query ->
  rounding_macros_nonneg ->
  fesetround_establishes ->
  In m rounding_macros ->
  exists r e1,
    mIEEE_FPU_fesetround m e = (Returned r, e1)
    /\ mIEEE_FPU_fegetround e1 = (Returned m, e1).
Proof.
  intros Hq Hn He Hin.
  destruct (fesetround_macro Hq Hn He m e Hin) as [e1 [E1 E2]].
  exists m, e1. split; assumption.
Qed.

Lemma fesetround_fegetround_round_trip_x86 :
  exists r e1,
    @mIEEE_FPU_fesetround x86_fenv_h 0x400 {| x87_cw := 0x37F; mxcsr := 0x1F80 |}
    = (Returned r, e1)
    /\ @mIEEE_FPU_fegetround x86_fenv_h e1 = (Returned 0x400, e1).
Proof.
  apply (@fesetround_fegetround_round_trip x86_fenv_h
           {| x87_cw := 0x37F; mxcsr := 0x1F80 |} 0x400
           x86_fegetround_is_query x86_rounding_macros_nonneg
           x86_fesetround_establishes).
  simpl. auto.
Defined.

(** C4. [fesetround m] hands [m] to the library's [fesetround] and returns
    what [fegetround] then reports: the value returned is the one the query
    gives in the environment the call leaves, and it is [m] when [m] is a
    rounding macro.  The argument is never the source of the value
    returned. *)
Theorem fesetround_returns_requeried_mode {libc : fenv_h} (e : fenv_t) (m : VALUE) :
  fegetround_is_query ->
  is_uint m ->
  exists r e',
    mIEEE_FPU_fesetround m e = (Returned r, e')
    /\ e' = snd (fesetround (to_int m) e)
    /\ mIEEE_FPU_fegetround e' = (Returned r, e')
    /\ (rounding_macros_nonneg -> fesetround_establishes ->
        In m rounding_macros -> r = m).
Proof.
  intros Hq Hm.
  exists (UINT2NUM (fst (fegetround (snd (fesetround (to_int m) e))))),
         (snd (fesetround (to_int m) e)).
  rewrite fesetround_run, fegetround_run by assumption.
  rewrite !Hq. repeat split.
  intros Hn He Hin.
  destruct (fesetround_macro Hq Hn He m e Hin) as [e1 [E1 _]].
  rewrite fesetround_run, Hq in E1 by assumption.
  injection E1 as E1 _. exact E1.
Qed.

(** On x86-64, [1] is no rounding mode: the call leaves the environment as
    it was and returns the mode in force, [0], not [1]. *)
Lemma fesetround_returns_requeried_mode_x86 :
  exists r e',
    @mIEEE_FPU_fesetround x86_fenv_h 1 {| x87_cw := 0x37F; mxcsr := 0x1F80 |}
    = (Returned r, e')
    /\ e' = {| x87_cw := 0x37F; mxcsr := 0x1F80 |}
    /\ @mIEEE_FPU_fegetround x86_fenv_h e' = (Returned r, e')
    /\ r = 0.
Proof.
  destruct (@fesetround_returns_requeried_mode x86_fenv_h
              {| x87_cw := 0x37F; mxcsr := 0x1F80 |} 1
              x86_fegetround_is_query
              ltac:(unfold is_uint, UINT_MAX; lia))
    as [r [e' [E1 [E2 [E3 _]]]]].
  exists r, e'. repeat split; try assumption.
  rewrite E2 in E3. injection E3 as E3. symmetry. exact E3.
Defined.

(** C7. Setting the rounding mode twice.  With [<fenv.h>] both calls of
    [fesetround m] return the rounding macro [m].  With the control word the
    first call of [fpu_setround m] returns the mode it found, which is [m]
    when the word already had mode [m]; it leaves a word on which the call
    returns the exported mode [m] and which the call does not change, so the
    second and every later call return [m]. *)
Theorem set_rounding_mode_twice {libc : fenv_h} {hdr : fpu_control_h}
    (e : fenv_t) (s : fpu) (m b : VALUE) :
  (fegetround_is_query -> rounding_macros_nonneg -> fesetround_establishes ->
   In m rounding_macros ->
   exists e1 e2,
     mIEEE_FPU_fesetround m e = (Returned m, e1)
     /\ mIEEE_FPU_fesetround m e1 = (Returned m, e2))
  /\ (0 <= fpu_control_bits <= 32 ->
      Forall is_fpu_control_t rounding_modes ->
      In b rounding_modes ->
      exists r1 s1,
        mIEEE_FPU_fpu_setround b s = (Returned r1, s1)
        /\ mIEEE_FPU_fpu_setround b s1 = (Returned b, s1)
        /\ (Z.land (cw s) round_mask = b -> r1 = b)).
Proof.
  split.
  - intros Hq Hn He Hin.
    destruct (fesetround_macro Hq Hn He m e Hin) as [e1 [E1 _]].
    destruct (fesetround_macro Hq Hn He m e1 Hin) as [e2 [E2 _]].
    exists e1, e2. split; assumption.
  - intros [Hlo Hhi] Hall Hin.
    pose proof (round_mask_is_fpu_control_t Hlo) as Hk.
    pose proof (mode_within_round_mask Hlo b Hall Hin) as Hw.
    pose proof (within_is_fpu_control_t Hlo _ _ Hk Hw) as Hb.
    pose proof (is_fpu_control_t_uint Hlo Hhi b Hb) as Hu.
    do 2 eexists.
    rewrite fpu_setround_eq, !set_field_run by assumption.
    split; [reflexivity|]. simpl.
    rewrite !UINT2NUM_field by assumption.
    rewrite written_field_read by assumption.
    split; [|intros E; exact E].
    f_equal. f_equal.
    rewrite (update_truncates Hlo (cw s)).
    rewrite update_fits;
      [| assumption | apply to_fpu_control_t_range; assumption | assumption].
    apply field_update_converged.
    rewrite land_truncated by assumption.
    apply field_update_read, Hw.
Qed.

Lemma set_rounding_mode_twice_x86 :
  (exists e1 e2,
      @mIEEE_FPU_fesetround x86_fenv_h 0x800 {| x87_cw := 0x37F; mxcsr := 0x1F80 |}
      = (Returned 0x800, e1)
      /\ @mIEEE_FPU_fesetround x86_fenv_h 0x800 e1 = (Returned 0x800, e2))
  /\ (exists r1 s1,
        @mIEEE_FPU_fpu_setround x86_fpu_control_h 0x800 {| cw := 0xB7F |} = (Returned r1, s1)
        /\ @mIEEE_FPU_fpu_setround x86_fpu_control_h 0x800 s1 = (Returned 0x800, s1)
        /\ r1 = 0x800).
Proof.
  pose proof (@set_rounding_mode_twice x86_fenv_h x86_fpu_control_h
                {| x87_cw := 0x37F; mxcsr := 0x1F80 |} {| cw := 0xB7F |} 0x800 0x800)
    as [HA HB].
  split.
  - apply HA.
    + exact x86_fegetround_is_query.
    + exact x86_rounding_macros_nonneg.
    + exact x86_fesetround_establishes.
    + simpl. auto.
  - destruct HB as [r1 [s1 [E1 [E2 E3]]]].
    + simpl. lia.
    + repeat apply Forall_cons; try apply Forall_nil;
        unfold is_fpu_control_t; simpl; lia.
    + simpl. auto.
    + exists r1, s1. repeat split; try assumption. apply E3. reflexivity.
Defined.

(** With the control word the two calls of [fpu_setround] need not return
    the same value when the first one changes the mode: from the x86
    default word the first call returns round-to-nearest, the second
    round-up. *)
Lemma fpu_setround_twice_from_default_x86 :
  let s := {| cw := 0x37F |} in
  let s1 := snd (@mIEEE_FPU_fpu_setround x86_fpu_control_h 0x800 s) in
  fst (@mIEEE_FPU_fpu_setround x86_fpu_control_h 0x800 s) = Returned 0
  /\ fst (@mIEEE_FPU_fpu_setround x86_fpu_control_h 0x800 s1) = Returned 0x800.
Proof. split; reflexivity. Qed.

(** C9. The get functions change nothing: [fegetround] leaves the
    environment as the library's query leaves it, that is unchanged;
    [fpu_getround] and [fpu_getprec] leave the control word unchanged. *)
Theorem get_leaves_state_unchanged {libc : fenv_h} {hdr : fpu_control_h}
    (e : fenv_t) (s : fpu) :
  (fegetround_is_query -> state_after (mIEEE_FPU_fegetround e) = e)
  /\ state_after (mIEEE_FPU_fegetround e) = snd (fegetround e)
  /\ state_after (mIEEE_FPU_fpu_getround s) = s
  /\ state_after (mIEEE_FPU_fpu_getprec s) = s.
Proof.
  unfold state_after. rewrite fegetround_run. simpl.
  repeat split. intros Hq. apply Hq.
Qed.

Lemma get_leaves_state_unchanged_x86 :
  state_after (@mIEEE_FPU_fegetround x86_fenv_h {| x87_cw := 0x37F; mxcsr := 0x1F80 |})
  = {| x87_cw := 0x37F; mxcsr := 0x1F80 |}
  /\ state_after (@mIEEE_FPU_fpu_getround x86_fpu_control_h {| cw := 0x37F |})
     = {| cw := 0x37F |}.
Proof.
  pose proof (@get_leaves_state_unchanged x86_fenv_h x86_fpu_control_h
                {| x87_cw := 0x37F; mxcsr := 0x1F80 |} {| cw := 0x37F |})
    as [HA [_ [HB _]]].
  split; [apply HA, x86_fegetround_is_query | exact HB].
Defined.

(** * How the control-word functions compose *)

Lemma field_update_commute (c k k' m p : Z) :
  Z.land k k' = 0 -> within m k -> within p k' ->
  field_update (field_update c k m) k' p = field_update (field_update c k' p) k m.
Proof.
  unfold within, field_update; intros Hd Hm Hp. bitwise i Hi.
  bit_of Hd i. bit_of Hm i. bit_of Hp i. bool_cases.
Qed.

Lemma field_update_overwrite (c k m1 m2 : Z) :
  within m1 k ->
  field_update (field_update c k m1) k m2 = field_update c k m2.
Proof.
  unfold within, field_update; intros H. bitwise i Hi. bit_of H i. bool_cases.
Qed.

Section SetField.
Context {hdr : fpu_control_h}.
Hypothesis bits_ok : 0 <= fpu_control_bits <= 32.

(** A set function on a word and an argument within the mask. *)
Lemma set_field_within k v s :
  is_fpu_control_t k -> is_fpu_control_t (cw s) -> within v k ->
  set_field k v s
  = (Returned (Z.land (cw s) k), {| cw := field_update (cw s) k v |}).
Proof.
  destruct bits_ok as [Hlo Hhi]. intros Hk Hc Hv.
  pose proof (within_is_fpu_control_t Hlo _ _ Hk Hv) as Hv'.
  rewrite set_field_run by (apply is_fpu_control_t_uint; assumption).
  rewrite UINT2NUM_field, update_fits by assumption.
  reflexivity.
Qed.

Lemma get_field_fits k s :
  is_fpu_control_t k -> get_field k s = (Returned (Z.land (cw s) k), s).
Proof.
  destruct bits_ok as [Hlo Hhi]. intros Hk.
  rewrite get_field_run, UINT2NUM_field by assumption. reflexivity.
Qed.

Lemma set_field_then_get k v s :
  is_fpu_control_t k -> within v k ->
  exists r s1,
    set_field k v s = (Returned r, s1) /\ get_field k s1 = (Returned v, s1).
Proof.
  destruct bits_ok as [Hlo Hhi]. intros Hk Hv.
  pose proof (within_is_fpu_control_t Hlo _ _ Hk Hv) as Hv'.
  do 2 eexists.
  rewrite set_field_run by (apply is_fpu_control_t_uint; assumption).
  split; [reflexivity|].
  rewrite get_field_fits by assumption. simpl.
  rewrite written_field_read by assumption. reflexivity.
Qed.

Lemma set_field_restores k v s :
  is_fpu_control_t k -> is_fpu_control_t (cw s) -> within v k ->
  exists r s1,
    set_field k v s = (Returned r, s1) /\ set_field k r s1 = (Returned v, s).
Proof.
  destruct bits_ok as [Hlo Hhi]. intros Hk Hc Hv.
  pose proof (within_is_fpu_control_t Hlo _ _ Hk Hv) as Hv'.
  do 2 eexists. rewrite set_field_within by assumption.
  split; [reflexivity|].
  rewrite set_field_within;
    [ | assumption | apply field_update_is_fpu_control_t; assumption
      | apply within_land ].
  simpl. rewrite field_update_read, field_update_restore by assumption.
  destruct s; reflexivity.
Qed.

Lemma set_field_overwrites k v1 v2 s :
  is_fpu_control_t k -> is_fpu_control_t (cw s) -> within v1 k -> within v2 k ->
  exists r s1 s2,
    set_field k v1 s = (Returned r, s1)
    /\ set_field k v2 s1 = (Returned v1, s2)
    /\ set_field k v2 s = (Returned r, s2).
Proof.
  destruct bits_ok as [Hlo Hhi]. intros Hk Hc H1 H2.
  pose proof (within_is_fpu_control_t Hlo _ _ Hk H1) as H1'.
  exists (Z.land (cw s) k), {| cw := field_update (cw s) k v1 |},
         {| cw := field_update (cw s) k v2 |}.
  rewrite !set_field_within; simpl;
    try assumption; try (apply field_update_is_fpu_control_t; assumption).
  rewrite field_update_read, field_update_overwrite by assumption.
  repeat split.
Qed.
End SetField.

Lemma fpu_setround_then_getround {hdr : fpu_control_h} (s : fpu) (m : VALUE) :
  0 <= fpu_control_bits <= 32 ->
  within m round_mask ->
  exists r s1,
    mIEEE_FPU_fpu_setround m s = (Returned r, s1)
    /\ mIEEE_FPU_fpu_getround s1 = (Returned m, s1).
Proof.
  intros Hb Hm. rewrite fpu_setround_eq, fpu_getround_eq.
  apply set_field_then_get; try assumption.
  apply round_mask_is_fpu_control_t, Hb.
Qed.

Lemma fpu_setprec_then_getprec {hdr : fpu_control_h} (s : fpu) (p : VALUE) :
  0 <= fpu_control_bits <= 32 ->
  within p prec_mask ->
  exists q s1,
    mIEEE_FPU_fpu_setprec p s = (Returned q, s1)
    /\ mIEEE_FPU_fpu_getprec s1 = (Returned p, s1).
Proof.
  intros Hb Hp. rewrite fpu_setprec_eq, fpu_getprec_eq.
  apply set_field_then_get; try assumption.
  apply prec_mask_is_fpu_control_t, Hb.
Qed.

(** X3. With the control word, a mode that is set is the mode that is
    read: [fpu_getround] after [fpu_setround m] returns [m], and
    [fpu_getprec] after [fpu_setprec p] returns [p], from any control word,
    when the argument has no bit outside the mask of its field. *)
Theorem fpu_set_get_round_trip {hdr : fpu_control_h} (s : fpu) (m p : VALUE) :
  0 <= fpu_control_bits <= 32 ->
  within m round_mask ->
  within p prec_mask ->
  (exists r s1,
      mIEEE_FPU_fpu_setround m s = (Returned r, s1)
      /\ mIEEE_FPU_fpu_getround s1 = (Returned m, s1))
  /\ (exists q s2,
        mIEEE_FPU_fpu_setprec p s = (Returned q, s2)
        /\ mIEEE_FPU_fpu_getprec s2 = (Returned p, s2)).
Proof.
  intros Hb Hm Hp. destruct Hb as [Hlo Hhi].
  rewrite fpu_setround_eq, fpu_setprec_eq, fpu_getround_eq, fpu_getprec_eq.
  split; apply set_field_then_get; try assumption; try (split; assumption).
  - apply round_mask_is_fpu_control_t; assumption.
  - apply prec_mask_is_fpu_control_t; assumption.
Qed.

Lemma fpu_set_get_round_trip_x86 :
  (exists r s1,
      @mIEEE_FPU_fpu_setround x86_fpu_control_h 0x400 {| cw := 0x37F |} = (Returned r, s1)
      /\ @mIEEE_FPU_fpu_getround x86_fpu_control_h s1 = (Returned 0x400, s1))
  /\ (exists q s2,
        @mIEEE_FPU_fpu_setprec x86_fpu_control_h 0x200 {| cw := 0x37F |} = (Returned q, s2)
        /\ @mIEEE_FPU_fpu_getprec x86_fpu_control_h s2 = (Returned 0x200, s2)).
Proof.
  apply (@fpu_set_get_round_trip x86_fpu_control_h {| cw := 0x37F |} 0x400 0x200);
    try reflexivity. simpl; lia.
Defined.

(** X4. Setting the rounding mode and setting the precision commute: with
    arguments within their masks and disjoint masks, the two calls in
    either order return the same two values and leave the same control
    word. *)
Theorem fpu_setround_setprec_commute {hdr : fpu_control_h} (s : fpu) (m p : VALUE) :
  0 <= fpu_control_bits <= 32 ->
  Z.land round_mask prec_mask = 0 ->
  is_fpu_control_t (cw s) ->
  within m round_mask ->
  within p prec_mask ->
  exists r q s1 s2 s12,
    mIEEE_FPU_fpu_setround m s = (Returned r, s1)
    /\ mIEEE_FPU_fpu_setprec p s1 = (Returned q, s12)
    /\ mIEEE_FPU_fpu_setprec p s = (Returned q, s2)
    /\ mIEEE_FPU_fpu_setround m s2 = (Returned r, s12).
Proof.
  intros Hb Hd Hc Hm Hp. pose proof Hb as [Hlo Hhi].
  pose proof (round_mask_is_fpu_control_t Hlo) as Hrk.
  pose proof (prec_mask_is_fpu_control_t Hlo) as Hpk.
  pose proof (within_is_fpu_control_t Hlo _ _ Hrk Hm) as Hm'.
  pose proof (within_is_fpu_control_t Hlo _ _ Hpk Hp) as Hp'.
  exists (Z.land (cw s) round_mask), (Z.land (cw s) prec_mask),
         {| cw := field_update (cw s) round_mask m |},
         {| cw := field_update (cw s) prec_mask p |},
         {| cw := field_update (field_update (cw s) prec_mask p) round_mask m |}.
  rewrite !fpu_setround_eq, !fpu_setprec_eq.
  rewrite !set_field_within; simpl;
    try assumption; try (apply field_update_is_fpu_control_t; assumption).
  rewrite (field_update_other (cw s) round_mask prec_mask m) by assumption.
  rewrite (field_update_other (cw s) prec_mask round_mask p)
    by (assumption || rewrite Z.land_comm; assumption).
  rewrite (field_update_commute (cw s) round_mask prec_mask m p) by assumption.
  repeat split.
Qed.

Lemma fpu_setround_setprec_commute_x86 :
  exists r q s1 s2 s12,
    @mIEEE_FPU_fpu_setround x86_fpu_control_h 0x800 {| cw := 0x37F |} = (Returned r, s1)
    /\ @mIEEE_FPU_fpu_setprec x86_fpu_control_h 0x200 s1 = (Returned q, s12)
    /\ @mIEEE_FPU_fpu_setprec x86_fpu_control_h 0x200 {| cw := 0x37F |} = (Returned q, s2)
    /\ @mIEEE_FPU_fpu_setround x86_fpu_control_h 0x800 s2 = (Returned r, s12).
Proof.
  apply (@fpu_setround_setprec_commute x86_fpu_control_h {| cw := 0x37F |} 0x800 0x200);
    try reflexivity; unfold is_fpu_control_t; simpl; lia.
Defined.

(** X5. The last mode set wins, and each call hands back the mode the call
    before it set: after [fpu_setround m1], [fpu_setround m2] returns [m1]
    and leaves the control word that [fpu_setround m2] alone would leave;
    likewise for [fpu_setprec]. *)
Theorem fpu_set_overwrites {hdr : fpu_control_h} (s : fpu) (m1 m2 p1 p2 : VALUE) :
  0 <= fpu_control_bits <= 32 ->
  is_fpu_control_t (cw s) ->
  within m1 round_mask -> within m2 round_mask ->
  within p1 prec_mask -> within p2 prec_mask ->
  (exists r s1 s2,
      mIEEE_FPU_fpu_setround m1 s = (Returned r, s1)
      /\ mIEEE_FPU_fpu_setround m2 s1 = (Returned m1, s2)
      /\ mIEEE_FPU_fpu_setround m2 s = (Returned r, s2))
  /\ (exists q s1 s2,
        mIEEE_FPU_fpu_setprec p1 s = (Returned q, s1)
        /\ mIEEE_FPU_fpu_setprec p2 s1 = (Returned p1, s2)
        /\ mIEEE_FPU_fpu_setprec p2 s = (Returned q, s2)).
Proof.
  intros Hb Hc Hm1 Hm2 Hp1 Hp2. pose proof Hb as [Hlo Hhi].
  split.
  - apply (set_field_overwrites Hb round_mask m1 m2 s); try assumption.
    apply round_mask_is_fpu_control_t; assumption.
  - apply (set_field_overwrites Hb prec_mask p1 p2 s); try assumption.
    apply prec_mask_is_fpu_control_t; assumption.
Qed.

Lemma fpu_set_overwrites_x86 :
  (exists r s1 s2,
      @mIEEE_FPU_fpu_setround x86_fpu_control_h 0x400 {| cw := 0x37F |} = (Returned r, s1)
      /\ @mIEEE_FPU_fpu_setround x86_fpu_control_h 0xC00 s1 = (Returned 0x400, s2)
      /\ @mIEEE_FPU_fpu_setround x86_fpu_control_h 0xC00 {| cw := 0x37F |} = (Returned r, s2))
  /\ (exists q s1 s2,
        @mIEEE_FPU_fpu_setprec x86_fpu_control_h 0x0 {| cw := 0x37F |} = (Returned q, s1)
        /\ @mIEEE_FPU_fpu_setprec x86_fpu_control_h 0x200 s1 = (Returned 0x0, s2)
        /\ @mIEEE_FPU_fpu_setprec x86_fpu_control_h 0x200 {| cw := 0x37F |} = (Returned q, s2)).
Proof.
  apply (@fpu_set_overwrites x86_fpu_control_h {| cw := 0x37F |} 0x400 0xC00 0x0 0x200);
    try reflexivity; unfold is_fpu_control_t; simpl; lia.
Defined.

(** X6. The value [fpu_setprec] returns restores the word: after
    [q = fpu_setprec p], with [p] within the precision mask,
    [fpu_setprec q] returns [p] and leaves the control word that was there
    before the first call. *)
Theorem fpu_setprec_restores {hdr : fpu_control_h} (s : fpu) (p : VALUE) :
  0 <= fpu_control_bits <= 32 ->
  is_fpu_control_t (cw s) ->
  within p prec_mask ->
  exists q s1,
    mIEEE_FPU_fpu_setprec p s = (Returned q, s1)
    /\ mIEEE_FPU_fpu_setprec q s1 = (Returned p, s).
Proof.
  intros Hb Hc Hp. pose proof Hb as [Hlo Hhi].
  apply (set_field_restores Hb prec_mask p s); try assumption.
  apply prec_mask_is_fpu_control_t; assumption.
Qed.

Lemma fpu_setprec_restores_x86 :
  exists q s1,
    @mIEEE_FPU_fpu_setprec x86_fpu_control_h 0x200 {| cw := 0x37F |} = (Returned q, s1)
    /\ @mIEEE_FPU_fpu_setprec x86_fpu_control_h q s1 = (Returned 0x200, {| cw := 0x37F |}).
Proof.
  apply (@fpu_setprec_restores x86_fpu_control_h {| cw := 0x37F |} 0x200);
    try reflexivity; unfold is_fpu_control_t; simpl; lia.
Defined.

(** * Arguments and values at the Ruby boundary *)

Lemma NUM2UINT_in_range {S : Type} (v : VALUE) (s : S) :
  INT_MIN <= v <= UINT_MAX -> NUM2UINT v s = (Returned (to_uint v), s).
Proof.
  intros [Hlo Hhi]. unfold NUM2UINT.
  replace ((INT_MIN <=? v) && (v <=? UINT_MAX)) with true; [reflexivity|].
  symmetry. apply andb_true_iff. split; apply Z.leb_le; assumption.
Qed.




Section Boundary.
Context {hdr : fpu_control_h} {libc : fenv_h} {libc_prec : fenv_prec_h}.

Lemma fegetprec_run e :
  mIEEE_FPU_fegetprec e
  = (Returned (UINT2NUM (fst (fegetprec e))), snd (fegetprec e)).
Proof.
  unfold mIEEE_FPU_fegetprec, bind, call, ret.
  destruct (fegetprec e); reflexivity.
Qed.

Lemma fesetround_converts v e :
  INT_MIN <= v <= UINT_MAX ->
  mIEEE_FPU_fesetround v e
  = (Returned (UINT2NUM (fst (fegetround (snd (fesetround (to_int (to_uint v)) e))))),
     snd (fegetround (snd (fesetround (to_int (to_uint v)) e)))).
Proof.
  intros Hv. unfold mIEEE_FPU_fesetround, bind.
  rewrite (NUM2UINT_in_range v e Hv). unfold call, ret.
  destruct (fesetround (to_int (to_uint v)) e) as [z e1]. simpl.
  destruct (fegetround e1); reflexivity.
Qed.

Lemma fesetprec_converts v e :
  INT_MIN <= v <= UINT_MAX ->
  mIEEE_FPU_fesetprec v e
  = (Returned (UINT2NUM (fst (fegetprec (snd (fesetprec (to_int (to_uint v)) e))))),
     snd (fegetprec (snd (fesetprec (to_int (to_uint v)) e)))).
Proof.
  intros Hv. unfold mIEEE_FPU_fesetprec, bind.
  rewrite (NUM2UINT_in_range v e Hv). unfold call, ret.
  destruct (fesetprec (to_int (to_uint v)) e) as [z e1]. simpl.
  destruct (fegetprec e1); reflexivity.
Qed.




End Boundary.






(** X10. [fesetprec p] hands [p] to the library's [fesetprec] and returns
    what [fegetprec] then reports, in the environment the call leaves; for
    a precision macro [p] it returns [p], and [fegetprec] called next
    returns [p]. *)
Theorem fesetprec_returns_requeried_precision
    {libc : fenv_h} {libc_prec : fenv_prec_h} (e : fenv_t) (p : VALUE) :
  fegetprec_is_query ->
  is_uint p ->
  exists r e',
    mIEEE_FPU_fesetprec p e = (Returned r, e')
    /\ e' = snd (fesetprec (to_int p) e)
    /\ mIEEE_FPU_fegetprec e' = (Returned r, e')
    /\ (precision_macros_nonneg -> fesetprec_establishes ->
        In p precision_macros -> r = p).
Proof.
  intros Hq Hp.
  assert (Hr : INT_MIN <= p <= UINT_MAX)
    by (unfold is_uint, INT_MIN in *; lia).
  do 2 eexists.
  rewrite fesetprec_converts, fegetprec_run by assumption.
  rewrite (to_uint_small p Hp), !Hq.
  repeat split.
  intros Hn He Hin.
  unfold precision_macros_nonneg in Hn. rewrite Forall_forall in Hn.
  pose proof (Hn p Hin) as Hint.
  rewrite to_int_small by assumption.
  rewrite (He p e Hin). unfold UINT2NUM. apply to_uint_small, Hp.
Qed.

Lemma x86_fegetprec_is_query : @fegetprec_is_query x86_fenv_h x86_fenv_prec_h.
Proof. intros e. reflexivity. Qed.

Lemma x86_precision_macros_nonneg : @precision_macros_nonneg x86_fenv_h x86_fenv_prec_h.
Proof.
  unfold precision_macros_nonneg, precision_macros, INT_MAX. simpl.
  repeat apply Forall_cons; try apply Forall_nil; lia.
Qed.

Lemma x86_fesetprec_establishes : @fesetprec_establishes x86_fenv_h x86_fenv_prec_h.
Proof.
  intros p e Hin. simpl in *.
  assert (Hw : within p 0x300).
  { destruct Hin as [<-|[<-|[<-|[]]]]; reflexivity. }
  unfold x86_fesetprec, x86_fegetprec.
  unfold within in Hw. rewrite Hw. simpl.
  apply field_update_read, Hw.
Qed.

Lemma fesetprec_returns_requeried_precision_x86 :
  exists r e',
    @mIEEE_FPU_fesetprec x86_fenv_h x86_fenv_prec_h 0x200
      {| x87_cw := 0x37F; mxcsr := 0x1F80 |} = (Returned r, e')
    /\ e' = {| x87_cw := 0x27F; mxcsr := 0x1F80 |}
    /\ @mIEEE_FPU_fegetprec x86_fenv_h x86_fenv_prec_h e' = (Returned r, e')
    /\ r = 0x200.
Proof.
  destruct (@fesetprec_returns_requeried_precision x86_fenv_h x86_fenv_prec_h
              {| x87_cw := 0x37F; mxcsr := 0x1F80 |} 0x200
              x86_fegetprec_is_query
              ltac:(unfold is_uint, UINT_MAX; lia))
    as [r [e' [E1 [E2 [E3 E4]]]]].
  exists r, e'. repeat split; try assumption.
  apply E4.
  - exact x86_precision_macros_nonneg.
  - exact x86_fesetprec_establishes.
  - simpl. auto.
Defined.

(** * The module [IEEE_FPU] *)

(** X11. [Init_ieee_fpu_control] defines what is compiled and nothing
    else, whatever the three configuration macros are: a C function is
    registered exactly when its definition is compiled (so
    [HAVE_FESETPREC] without [HAVE_FENV_H] gives nothing); it is registered
    under its own name without the prefix [mIEEE_FPU_], with the number of
    arguments it takes; no name is defined twice; and with neither header
    the module [IEEE_FPU] exists and is empty. *)
Theorem Init_defines_what_is_compiled
    {hdr : fpu_control_h} {libc : fenv_h} {libc_prec : fenv_prec_h} (cfg : config) :
  module_name (Init_ieee_fpu_control cfg) = "IEEE_FPU"%string
  /\ (forall f,
        (exists n argc, In (n, (f, argc)) (module_functions (Init_ieee_fpu_control cfg)))
        <-> compiled cfg f = true)
  /\ (forall n f argc,
        In (n, (f, argc)) (module_functions (Init_ieee_fpu_control cfg)) ->
        argc = c_params f /\ c_name f = ("mIEEE_FPU_" ++ n)%string)
  /\ NoDup (map fst (module_functions (Init_ieee_fpu_control cfg)))
  /\ NoDup (map fst (constants (Init_ieee_fpu_control cfg)))
  /\ (HAVE_FPU_CONTROL_H cfg = false -> HAVE_FENV_H cfg = false ->
      constants (Init_ieee_fpu_control cfg) = []
      /\ module_functions (Init_ieee_fpu_control cfg) = []).
Proof.
  destruct cfg as [[|] [|] [|]];
    (split; [reflexivity|]);
    (split; [intros f; split;
             [ intros [n [argc Hin]]; cbn in Hin;
               repeat (destruct Hin as [Hin|Hin];
                       [injection Hin as _ <- _; reflexivity|]);
               destruct Hin
             | destruct f; cbn; intros Hc; try discriminate Hc;
               do 2 eexists; cbn; auto 20 ]|]);
    (split; [intros n f argc Hin; cbn in Hin;
             repeat (destruct Hin as [Hin|Hin];
                     [injection Hin as <- <- <-; split; reflexivity|]);
             destruct Hin|]);
    (split; [cbn; repeat constructor; cbn; intuition discriminate|]);
    (split; [cbn; repeat constructor; cbn; intuition discriminate|]);
    cbn; intros H1 H2; try discriminate H1; try discriminate H2;
    split; reflexivity.
Qed.

(** X12. The constants the module exports work with the functions it
    exports.  When [<fpu_control.h>] is compiled in, each rounding constant
    of the module holds a rounding mode of the header; [fpu_setround] is
    registered with one argument and [fpu_getround] with none; and
    [fpu_getround] after [fpu_setround] of the constant returns the
    constant.  Likewise for the precision constants with [fpu_setprec] and
    [fpu_getprec]. *)
Theorem exported_fpu_constants_round_trip
    {hdr : fpu_control_h} {libc : fenv_h} {libc_prec : fenv_prec_h}
    (cfg : config) (s : fpu) (n : string) :
  0 <= fpu_control_bits <= 32 ->
  Forall is_fpu_control_t rounding_modes ->
  Forall is_fpu_control_t precision_modes ->
  HAVE_FPU_CONTROL_H cfg = true ->
  (In n ["FPU_RC_NEAREST"; "FPU_RC_DOWN"; "FPU_RC_UP"; "FPU_RC_ZERO"]%string ->
   exists v,
     const_get (Init_ieee_fpu_control cfg) n = Some v
     /\ In v rounding_modes
     /\ function_get (Init_ieee_fpu_control cfg) "fpu_setround" = Some (c_fpu_setround, 1)
     /\ function_get (Init_ieee_fpu_control cfg) "fpu_getround" = Some (c_fpu_getround, 0)
     /\ exists r s1,
          mIEEE_FPU_fpu_setround v s = (Returned r, s1)
          /\ mIEEE_FPU_fpu_getround s1 = (Returned v, s1))
  /\ (In n ["FPU_EXTENDED"; "FPU_DOUBLE"; "FPU_SINGLE"]%string ->
      exists v,
        const_get (Init_ieee_fpu_control cfg) n = Some v
        /\ In v precision_modes
        /\ function_get (Init_ieee_fpu_control cfg) "fpu_setprec" = Some (c_fpu_setprec, 1)
        /\ function_get (Init_ieee_fpu_control cfg) "fpu_getprec" = Some (c_fpu_getprec, 0)
        /\ exists q s1,
             mIEEE_FPU_fpu_setprec v s = (Returned q, s1)
             /\ mIEEE_FPU_fpu_getprec s1 = (Returned v, s1)).
Proof.
  intros Hb Hrm Hpm Hcfg. pose proof Hb as [Hlo Hhi].
  assert (Hconst : forall k, is_fpu_control_t k -> UINT2NUM k = k).
  { intros k Hk. apply to_uint_small, is_fpu_control_t_uint; assumption. }
  assert (Hr : forall k, In k rounding_modes -> UINT2NUM k = k).
  { intros k Hk. apply Hconst. rewrite Forall_forall in Hrm. apply Hrm, Hk. }
  assert (Hp : forall k, In k precision_modes -> UINT2NUM k = k).
  { intros k Hk. apply Hconst. rewrite Forall_forall in Hpm. apply Hpm, Hk. }
  assert (Hround : forall v, In v rounding_modes ->
            exists r s1, mIEEE_FPU_fpu_setround v s = (Returned r, s1)
                         /\ mIEEE_FPU_fpu_getround s1 = (Returned v, s1)).
  { intros v Hv.
    apply (fpu_setround_then_getround s v Hb).
    apply mode_within_round_mask; assumption. }
  assert (Hprec : forall v, In v precision_modes ->
            exists q s1, mIEEE_FPU_fpu_setprec v s = (Returned q, s1)
                         /\ mIEEE_FPU_fpu_getprec s1 = (Returned v, s1)).
  { intros v Hv.
    apply (fpu_setprec_then_getprec s v Hb).
    apply mode_within_prec_mask; assumption. }
  destruct cfg as [c1 c2 c3]. simpl in Hcfg. subst c1.
  split; intros Hin; simpl in Hin.
  - assert (Hfun : forall b2 b3,
              function_get (Init_ieee_fpu_control
                              {| HAVE_FPU_CONTROL_H := true; HAVE_FENV_H := b2;
                                 HAVE_FESETPREC := b3 |}) "fpu_setround"
              = Some (c_fpu_setround, 1)
              /\ function_get (Init_ieee_fpu_control
                                 {| HAVE_FPU_CONTROL_H := true; HAVE_FENV_H := b2;
                                    HAVE_FESETPREC := b3 |}) "fpu_getround"
                 = Some (c_fpu_getround, 0))
      by (intros [|] [|]; split; reflexivity).
    destruct (Hfun c2 c3) as [Hs Hg].
    destruct Hin as [<-|[<-|[<-|[<-|[]]]]].
    + exists _FPU_RC_NEAREST.
      assert (Hk : In _FPU_RC_NEAREST rounding_modes) by (simpl; auto).
      split; [rewrite <- (Hr _ Hk); destruct c2, c3; reflexivity|].
      repeat split; try assumption. apply Hround, Hk.
    + exists _FPU_RC_DOWN.
      assert (Hk : In _FPU_RC_DOWN rounding_modes) by (simpl; auto).
      split; [rewrite <- (Hr _ Hk); destruct c2, c3; reflexivity|].
      repeat split; try assumption. apply Hround, Hk.
    + exists _FPU_RC_UP.
      assert (Hk : In _FPU_RC_UP rounding_modes) by (simpl; auto).
      split; [rewrite <- (Hr _ Hk); destruct c2, c3; reflexivity|].
      repeat split; try assumption. apply Hround, Hk.
    + exists _FPU_RC_ZERO.
      assert (Hk : In _FPU_RC_ZERO rounding_modes) by (simpl; auto).
      split; [rewrite <- (Hr _ Hk); destruct c2, c3; reflexivity|].
      repeat split; try assumption. apply Hround, Hk.
  - assert (Hfun : forall b2 b3,
              function_get (Init_ieee_fpu_control
                              {| HAVE_FPU_CONTROL_H := true; HAVE_FENV_H := b2;
                                 HAVE_FESETPREC := b3 |}) "fpu_setprec"
              = Some (c_fpu_setprec, 1)
              /\ function_get (Init_ieee_fpu_control
                                 {| HAVE_FPU_CONTROL_H := true; HAVE_FENV_H := b2;
                                    HAVE_FESETPREC := b3 |}) "fpu_getprec"
                 = Some (c_fpu_getprec, 0))
      by (intros [|] [|]; split; reflexivity).
    destruct (Hfun c2 c3) as [Hs Hg].
    destruct Hin as [<-|[<-|[<-|[]]]].
    + exists _FPU_EXTENDED.
      assert (Hk : In _FPU_EXTENDED precision_modes) by (simpl; auto).
      split; [rewrite <- (Hp _ Hk); destruct c2, c3; reflexivity|].
      repeat split; try assumption. apply Hprec, Hk.
    + exists _FPU_DOUBLE.
      assert (Hk : In _FPU_DOUBLE precision_modes) by (simpl; auto).
      split; [rewrite <- (Hp _ Hk); destruct c2, c3; reflexivity|].
      repeat split; try assumption. apply Hprec, Hk.
    + exists _FPU_SINGLE.
      assert (Hk : In _FPU_SINGLE precision_modes) by (simpl; auto).
      split; [rewrite <- (Hp _ Hk); destruct c2, c3; reflexivity|].
      repeat split; try assumption. apply Hprec, Hk.
Qed.

Lemma exported_fpu_constants_round_trip_x86 :
  exists v,
    @const_get
      (@Init_ieee_fpu_control x86_fpu_control_h x86_fenv_h x86_fenv_prec_h
         {| HAVE_FPU_CONTROL_H := true; HAVE_FENV_H := true; HAVE_FESETPREC := false |})
      "FPU_RC_DOWN" = Some v
    /\ v = 0x400
    /\ exists r s1,
         @mIEEE_FPU_fpu_setround x86_fpu_control_h v {| cw := 0x37F |} = (Returned r, s1)
         /\ @mIEEE_FPU_fpu_getround x86_fpu_control_h s1 = (Returned v, s1).
Proof.
  destruct (@exported_fpu_constants_round_trip
              x86_fpu_control_h x86_fenv_h x86_fenv_prec_h
              {| HAVE_FPU_CONTROL_H := true; HAVE_FENV_H := true; HAVE_FESETPREC := false |}
              {| cw := 0x37F |} "FPU_RC_DOWN") as [H _].
  - simpl. lia.
  - repeat apply Forall_cons; try apply Forall_nil;
      unfold is_fpu_control_t; simpl; lia.
  - repeat apply Forall_cons; try apply Forall_nil;
      unfold is_fpu_control_t; simpl; lia.
  - reflexivity.
  - destruct H as [v [Hc [_ [_ [_ Hrt]]]]]; [simpl; auto|].
    exists v. split; [exact Hc|]. split; [|exact Hrt].
    cbv in Hc. injection Hc as <-. reflexivity.
Defined.

(** X13. A mode the library refuses is not an error: [fesetround]
    discards the status the library's [fesetround] returns.  When the
    library leaves the environment as it was, the call returns what
    [fegetround] returns, the mode in force, and changes nothing; likewise
    for [fesetprec]. *)
Theorem refused_mode_returns_mode_in_force
    {libc : fenv_h} {libc_prec : fenv_prec_h} (e : fenv_t) (v : VALUE) :
  is_uint v ->
  (fegetround_is_query ->
   snd (fesetround (to_int v) e) = e ->
   mIEEE_FPU_fesetround v e = mIEEE_FPU_fegetround e
   /\ state_after (mIEEE_FPU_fesetround v e) = e)
  /\ (fegetprec_is_query ->
      snd (fesetprec (to_int v) e) = e ->
      mIEEE_FPU_fesetprec v e = mIEEE_FPU_fegetprec e
      /\ state_after (mIEEE_FPU_fesetprec v e) = e).
Proof.
  intros Hv.
  assert (Hr : INT_MIN <= v <= UINT_MAX)
    by (unfold is_uint, INT_MIN in *; lia).
  split; intros Hq Hrefused.
  - rewrite fesetround_converts, fegetround_run by assumption.
    rewrite (to_uint_small v Hv), Hrefused.
    split; [reflexivity|]. unfold state_after. simpl. apply Hq.
  - rewrite fesetprec_converts, fegetprec_run by assumption.
    rewrite (to_uint_small v Hv), Hrefused.
    split; [reflexivity|]. unfold state_after. simpl. apply Hq.
Qed.

Lemma refused_mode_returns_mode_in_force_x86 :
  @mIEEE_FPU_fesetround x86_fenv_h 0x123 {| x87_cw := 0xB7F; mxcsr := 0x1F80 |}
  = (Returned 0x800, {| x87_cw := 0xB7F; mxcsr := 0x1F80 |}).
Proof.
  destruct (@refused_mode_returns_mode_in_force x86_fenv_h x86_fenv_prec_h
              {| x87_cw := 0xB7F; mxcsr := 0x1F80 |} 0x123
              ltac:(unfold is_uint, UINT_MAX; lia)) as [H _].
  destruct H as [H _].
  - exact x86_fegetround_is_query.
  - reflexivity.
  - rewrite H. reflexivity.
Defined.
